(** * go-mapnik: the cgo adapter over the Mapnik C API

    A shallow embedding of [mapnik/mapnik.go].  The package is a thin layer
    over a foreign rendering engine: every exported function marshals its
    arguments, performs one or more calls through cgo and translates the
    engine's status into a Go result.  The embedding therefore has three
    parts:

    - module [C] lists the foreign entry points the package calls (the
      pseudo-package [C] of cgo), each with the type of its answer;
    - [Go] is the type of Go computations: a tree of foreign calls and of
      accesses to Go objects reached through pointers;
    - [run] executes a computation against an arbitrary engine, and records
      the calls that crossed the boundary together with their answers.

    The theorems quantify over the engine: they hold whatever the foreign
    side answers. *)

From Stdlib Require Import ZArith Floats Strings.String Strings.Byte List Lia.
From stdpp Require Import base option gmap.
Import ListNotations.
Open Scope Z_scope.
Open Scope string_scope.

(** ** The foreign interface *)

Module C.

(** A C pointer is an address; [NULL] is address zero.  All pointer types of
    the API ([*C.char], [*C.struct__mapnik_map_t], [unsafe.Pointer], ...)
    are addresses, and the conversions between them keep the address. *)
Definition ptr := Z.
Definition NULL : ptr := 0.

(** [C.uint(x)]: conversion to a 32-bit unsigned integer. *)
Definition uint (x : Z) : Z := x mod 2 ^ 32.

(** [C.int(x)]: conversion to a 32-bit signed integer. *)
Definition int (x : Z) : Z := (x + 2 ^ 31) mod 2 ^ 32 - 2 ^ 31.

(** [C.double(x)]: Go's [float64] and C's [double] are the same format. *)
Definition double (x : float) : float := x.

(** [C.mapnik_coord_t], built in [Projection.Forward] as a pair of doubles
    and read back through its fields [x] and [y]. *)
Record mapnik_coord_t := { x : float; y : float }.

(** The calls that cross the boundary, indexed by the type of what comes
    back.  [CString], [GoString], [GoBytes] and [free] are the cgo helpers;
    [blob_ptr] and [blob_len] are the reads [b.ptr] and [b.len] of the blob
    returned by the PNG encoder, which Go performs directly on C memory.
    A call whose C result the Go code drops has answer [unit].  The two
    registration calls take the error slot by address: their answer is the
    status together with the content of the slot on return. *)
Inductive call : Type -> Type :=
| CString (s : string) : call ptr
| GoString (s : ptr) : call string
| GoBytes (b : ptr) (n : Z) : call (list byte)
| free (b : ptr) : call unit
| mapnik_version_string : call ptr
| mapnik_register_datasources (path err : ptr) : call (Z * ptr)
| mapnik_register_fonts (path err : ptr) : call (Z * ptr)
| mapnik_projection_free (p : ptr) : call unit
| mapnik_projection_forward (p : ptr) (c : mapnik_coord_t) : call mapnik_coord_t
| mapnik_map (width height : Z) : call ptr
| mapnik_map_last_error (m : ptr) : call ptr
| mapnik_map_load (m stylesheet : ptr) : call Z
| mapnik_map_load_string (m stylesheet : ptr) : call Z
| mapnik_map_resize (m : ptr) (width height : Z) : call unit
| mapnik_map_free (m : ptr) : call unit
| mapnik_map_get_srs (m : ptr) : call ptr
| mapnik_map_set_srs (m srs : ptr) : call unit
| mapnik_map_zoom_all (m : ptr) : call Z
| mapnik_bbox (minx miny maxx maxy : float) : call ptr
| mapnik_bbox_free (b : ptr) : call unit
| mapnik_map_zoom_to_box (m b : ptr) : call unit
| mapnik_map_render_to_file (m path : ptr) (scale scale_factor : float) (format : ptr) : call Z
| mapnik_map_render_to_image (m : ptr) (scale scale_factor : float) : call ptr
| mapnik_image_free (i : ptr) : call unit
| mapnik_image_to_png_blob (i : ptr) : call ptr
| mapnik_image_blob_free (b : ptr) : call unit
| blob_ptr (b : ptr) : call ptr
| blob_len (b : ptr) : call Z
| mapnik_map_projection (m : ptr) : call ptr
| mapnik_map_set_buffer_size (m : ptr) (s : Z) : call unit.

End C.

(** ** Go values *)

(** Package [errors]: [errors.New(text)] returns a pointer to a fresh
    [errorString] holding [text]; its method [Error] returns the text. *)
Module errors.

Record errorString := { s : string }.

Definition New (text : string) : errorString := {| s := text |}.

Definition Error (e : errorString) : string := s e.

End errors.

(** A value of the interface type [error]: [None] is Go's [nil]. *)
Definition error := option errors.errorString.

(** A value of type [[]byte]: [None] is the nil slice, [Some l] a slice
    with the elements [l] (possibly none). *)
Definition bytes := option (list byte).

(** Point in 2D space. *)
Record Coord := { X : float; Y : float }.

(** Projection from one reference system to the other. *)
Record Projection := { Projection_p : C.ptr }.

(** Map base type. *)
Record Map := { Map_m : C.ptr }.

(** RenderOpts defines rendering options. *)
Record RenderOpts := {
  Scale : float;
  ScaleFactor : float;
  Format : string
}.

(** The Go objects that are reached through a pointer. *)
Inductive object :=
| MapObj (v : Map)
| ProjectionObj (v : Projection).

(** A Go pointer to such an object. *)
Inductive pointer :=
| nil
| ref (l : positive).

(** ** Go computations *)

(** A computation returns, calls the foreign side and goes on with the
    answer, allocates an object ([&T{...}]), reads or writes an object
    through a pointer, or panics. *)
Inductive Go (R : Type) : Type :=
| Ret (r : R)
| Call {A : Type} (c : C.call A) (k : A -> Go R)
| Alloc (v : object) (k : pointer -> Go R)
| Deref (q : pointer) (k : object -> Go R)
| Assign (q : pointer) (v : object) (k : Go R)
| Panic.

Arguments Ret {R} r.
Arguments Call {R A} c k.
Arguments Alloc {R} v k.
Arguments Deref {R} q k.
Arguments Assign {R} q v k.
Arguments Panic {R}.

Fixpoint bind {A B : Type} (g : Go A) (f : A -> Go B) : Go B :=
  match g with
  | Ret r => f r
  | Call c k => Call c (fun a => bind (k a) f)
  | Alloc v k => Alloc v (fun q => bind (k q) f)
  | Deref q k => Deref q (fun v => bind (k v) f)
  | Assign q v k => Assign q v (bind k f)
  | Panic => Panic
  end.

#[export] Instance Go_ret : MRet Go := @Ret.
#[export] Instance Go_bind : MBind Go := fun A B f g => bind g f.

(** One foreign call. *)
Definition call {A : Type} (c : C.call A) : Go A := Call c Ret.

(** [defer d] followed by the rest of the function body: the deferred call
    runs when the body has produced the function's result.  Nested defers
    run last-in first-out.  The arguments of a deferred call are evaluated
    at the [defer] statement, so [d] is built from the values known there. *)
Definition defer {R : Type} (d : Go unit) (body : Go R) : Go R :=
  r ← body; d;; mret r.

(** [*q] for a [*Map] and for a [*Projection]; a nil pointer panics. *)
Definition deref_Map (q : pointer) : Go Map :=
  Deref q (fun v => match v with MapObj v => Ret v | _ => Panic end).

Definition deref_Projection (q : pointer) : Go Projection :=
  Deref q (fun v => match v with ProjectionObj v => Ret v | _ => Panic end).

(** ** Running a computation *)

(** A call that crossed the boundary, with its answer. *)
Inductive event :=
| Ev {A : Type} (c : C.call A) (a : A).

Section Run.

(** The foreign side: a state [W] (the engine's contexts and the C heap)
    and, for every call, its answer and the state it leaves. *)
Context {W : Type}.
Variable engine : forall A : Type, C.call A -> W -> A * W.

(** The Go heap maps the addresses in use to the objects stored there. *)
Definition heap := gmap positive object.

(** What a run leaves: the result, the Go heap, the foreign state and the
    calls performed, in order. *)
Record outcome (R : Type) := {
  result : R;
  heap_after : heap;
  world_after : W;
  calls : list event
}.

Arguments result {R} o.
Arguments heap_after {R} o.
Arguments world_after {R} o.
Arguments calls {R} o.

Definition logged {R : Type} (e : event) (o : outcome R) : outcome R :=
  {| result := result o; heap_after := heap_after o;
     world_after := world_after o; calls := e :: calls o |}.

(** [run g hp w] is [None] when [g] panics; a panic is not followed any
    further (the deferred calls Go would still make are not recorded). *)
Fixpoint run {R : Type} (g : Go R) (hp : heap) (w : W) : option (outcome R) :=
  match g with
  | Ret r => Some {| result := r; heap_after := hp; world_after := w; calls := [] |}
  | Call c k =>
      let '(a, w') := engine _ c w in
      logged (Ev c a) <$> run (k a) hp w'
  | Alloc v k =>
      let l := fresh (dom hp) in
      run (k (ref l)) (<[l := v]> hp) w
  | Deref q k =>
      match q with
      | nil => None
      | ref l => match hp !! l with Some v => run (k v) hp w | None => None end
      end
  | Assign q v k =>
      match q with
      | nil => None
      | ref l => match hp !! l with Some _ => run k (<[l := v]> hp) w | None => None end
      end
  | Panic => None
  end.

(** The calls a computation makes until it returns or panics.  When it
    returns they are the calls of its outcome; when it panics they are the
    calls made before the panic (the deferred calls Go still makes while
    panicking are not included). *)
Fixpoint calls_made {R : Type} (g : Go R) (hp : heap) (w : W) : list event :=
  match g with
  | Ret _ => []
  | Call c k =>
      let '(a, w') := engine _ c w in
      Ev c a :: calls_made (k a) hp w'
  | Alloc v k =>
      let l := fresh (dom hp) in
      calls_made (k (ref l)) (<[l := v]> hp) w
  | Deref q k =>
      match q with
      | nil => []
      | ref l => match hp !! l with Some v => calls_made (k v) hp w | None => [] end
      end
  | Assign q v k =>
      match q with
      | nil => []
      | ref l => match hp !! l with Some _ => calls_made k (<[l := v]> hp) w | None => [] end
      end
  | Panic => []
  end.

End Run.

Arguments result {W R} o.
Arguments heap_after {W R} o.
Arguments world_after {W R} o.
Arguments calls {W R} o.

(** ** The package *)

(** [Version]. *)
Definition Version : Go string :=
  v ← call C.mapnik_version_string;
  s ← call (C.GoString v);
  mret (String.append "Mapnik " s).

(** [RegisterDatasources]: the error slot [err] starts as a second copy of
    the path and is handed to the engine by address; the deferred [free]
    releases the pointer the slot held when the [defer] was executed. *)
Definition RegisterDatasources (path : string) : Go unit :=
  cs ← call (C.CString path);
  defer (call (C.free cs)) (
    err ← call (C.CString path);
    defer (call (C.free err)) (
      _ ← call (C.mapnik_register_datasources cs err);
      mret tt)).

(** [RegisterFonts]. *)
Definition RegisterFonts (path : string) : Go unit :=
  cs ← call (C.CString path);
  defer (call (C.free cs)) (
    err ← call (C.CString path);
    defer (call (C.free err)) (
      _ ← call (C.mapnik_register_fonts cs err);
      mret tt)).

(** [(p *Projection) Free]. *)
Definition Projection_Free (p : pointer) : Go unit :=
  v ← deref_Projection p;
  call (C.mapnik_projection_free (Projection_p v));;
  Assign p (ProjectionObj {| Projection_p := C.NULL |}) (Ret tt).

(** [(p Projection) Forward]: the receiver is a copy of the wrapper. *)
Definition Projection_Forward (p : Projection) (coord : Coord) : Go Coord :=
  let c := {| C.x := C.double (X coord); C.y := C.double (Y coord) |} in
  c ← call (C.mapnik_projection_forward (Projection_p p) c);
  mret {| X := C.x c; Y := C.y c |}.

(** [NewMap]: the address of a new [Map] holding the engine's handle. *)
Definition NewMap (width height : Z) : Go pointer :=
  h ← call (C.mapnik_map (C.uint width) (C.uint height));
  Alloc (MapObj {| Map_m := h |}) Ret.

(** [(m *Map) lastError]. *)
Definition Map_lastError (m : pointer) : Go error :=
  v ← deref_Map m;
  e ← call (C.mapnik_map_last_error (Map_m v));
  s ← call (C.GoString e);
  mret (Some (errors.New (String.append "mapnik: " s))).

(** [(m *Map) Load] initializes the map by loading its stylesheet from
    [stylesheetFile]. *)
Definition Map_Load (m : pointer) (stylesheetFile : string) : Go error :=
  cs ← call (C.CString stylesheetFile);
  defer (call (C.free cs)) (
    v ← deref_Map m;
    rc ← call (C.mapnik_map_load (Map_m v) cs);
    if negb (rc =? 0)%Z then Map_lastError m else mret None).

(** [(m *Map) LoadString] initializes the map from a stylesheet provided as
    a string. *)
Definition Map_LoadString (m : pointer) (stylesheet : string) : Go error :=
  cs ← call (C.CString stylesheet);
  defer (call (C.free cs)) (
    v ← deref_Map m;
    rc ← call (C.mapnik_map_load_string (Map_m v) cs);
    if negb (rc =? 0)%Z then Map_lastError m else mret None).

(** [(m *Map) Resize]. *)
Definition Map_Resize (m : pointer) (width height : Z) : Go unit :=
  v ← deref_Map m;
  call (C.mapnik_map_resize (Map_m v) (C.uint width) (C.uint height)).

(** [(m *Map) Free]. *)
Definition Map_Free (m : pointer) : Go unit :=
  v ← deref_Map m;
  call (C.mapnik_map_free (Map_m v));;
  Assign m (MapObj {| Map_m := C.NULL |}) (Ret tt).

(** [(m *Map) SRS]. *)
Definition Map_SRS (m : pointer) : Go string :=
  v ← deref_Map m;
  s ← call (C.mapnik_map_get_srs (Map_m v));
  call (C.GoString s).

(** [(m *Map) SetSRS]. *)
Definition Map_SetSRS (m : pointer) (srs : string) : Go unit :=
  cs ← call (C.CString srs);
  defer (call (C.free cs)) (
    v ← deref_Map m;
    call (C.mapnik_map_set_srs (Map_m v) cs)).

(** [(m *Map) ZoomAll]. *)
Definition Map_ZoomAll (m : pointer) : Go error :=
  v ← deref_Map m;
  rc ← call (C.mapnik_map_zoom_all (Map_m v));
  if negb (rc =? 0)%Z then Map_lastError m else mret None.

(** [(m *Map) ZoomToMinMax]. *)
Definition Map_ZoomToMinMax (m : pointer) (minx miny maxx maxy : float) : Go unit :=
  bbox ← call (C.mapnik_bbox (C.double minx) (C.double miny) (C.double maxx) (C.double maxy));
  defer (call (C.mapnik_bbox_free bbox)) (
    v ← deref_Map m;
    call (C.mapnik_map_zoom_to_box (Map_m v) bbox)).

(** The first lines of both render functions: a scale factor that compares
    equal to zero is replaced by one. *)
Definition scaleFactor (opts : RenderOpts) : float :=
  let scaleFactor := ScaleFactor opts in
  if PrimFloat.eqb scaleFactor 0 then 1%float else scaleFactor.

(** [(m *Map) RenderToFile]. *)
Definition Map_RenderToFile (m : pointer) (path : string) (opts : RenderOpts) : Go error :=
  let scaleFactor := scaleFactor opts in
  format ← (if negb (String.eqb (Format opts) EmptyString)
            then call (C.CString (Format opts))
            else call (C.CString "png8"));
  defer (call (C.free format)) (
    cs ← call (C.CString path);
    defer (call (C.free cs)) (
      v ← deref_Map m;
      rc ← call (C.mapnik_map_render_to_file (Map_m v) cs
                   (C.double (Scale opts)) (C.double scaleFactor) format);
      if negb (rc =? 0)%Z then Map_lastError m else mret None)).

(** [C.GoBytes(p, n)]: the Go runtime refuses a negative length with a
    panic; otherwise it copies the [n] bytes at [p] into a new slice, which
    is never the nil slice. *)
Definition GoBytes (p : C.ptr) (n : Z) : Go bytes :=
  if (n <? 0)%Z then Panic
  else
    bs ← call (C.GoBytes p n);
    mret (Some bs).

(** [b.ptr] and [b.len]: a field of the blob read through the pointer [b];
    reading through a nil [b] panics. *)
Definition blob_field {A : Type} (b : C.ptr) (field : C.ptr -> C.call A) : Go A :=
  if (b =? C.NULL)%Z then Panic else call (field b).

(** [(m *Map) RenderToMemoryPng]. *)
Definition Map_RenderToMemoryPng (m : pointer) (opts : RenderOpts) : Go (bytes * error) :=
  let scaleFactor := scaleFactor opts in
  v ← deref_Map m;
  i ← call (C.mapnik_map_render_to_image (Map_m v)
              (C.double (Scale opts)) (C.double scaleFactor));
  if (i =? C.NULL)%Z then
    e ← Map_lastError m;
    mret (None, e)
  else
    defer (call (C.mapnik_image_free i)) (
      b ← call (C.mapnik_image_to_png_blob i);
      defer (call (C.mapnik_image_blob_free b)) (
        p ← blob_field b C.blob_ptr;
        n ← blob_field b C.blob_len;
        bs ← GoBytes p (C.int n);
        mret (bs, None))).

(** [(m *Map) Projection]. *)
Definition Map_Projection (m : pointer) : Go Projection :=
  let p := {| Projection_p := C.NULL |} in
  v ← deref_Map m;
  h ← call (C.mapnik_map_projection (Map_m v));
  let p := {| Projection_p := h |} in
  mret p.

(** [(m *Map) SetBufferSize]. *)
Definition Map_SetBufferSize (m : pointer) (s : Z) : Go unit :=
  v ← deref_Map m;
  call (C.mapnik_map_set_buffer_size (Map_m v) (C.int s)).

Section Init.

(** The two search paths are constants of the package that the build
    generates; they are not in [mapnik.go]. *)
Variables pluginPath fontPath : string.

(** [init] registers the default datasources path and fonts path. *)
Definition init : Go unit :=
  RegisterDatasources pluginPath;;
  RegisterFonts fontPath.

End Init.

(** ** Vocabulary of the properties *)

(** The operations that report failure through the result type [error]. *)
Inductive fallible :=
| op_Load (stylesheetFile : string)
| op_LoadString (stylesheet : string)
| op_ZoomAll
| op_RenderToFile (path : string) (opts : RenderOpts).

Definition perform (op : fallible) (m : pointer) : Go error :=
  match op with
  | op_Load stylesheetFile => Map_Load m stylesheetFile
  | op_LoadString stylesheet => Map_LoadString m stylesheet
  | op_ZoomAll => Map_ZoomAll m
  | op_RenderToFile path opts => Map_RenderToFile m path opts
  end.

(** The status code carried by an event: the answer of one of the four
    engine calls behind the fallible operations. *)
Definition status (e : event) : option Z :=
  match e with
  | Ev c a =>
      match c in C.call A return A -> option Z with
      | C.mapnik_map_load _ _
      | C.mapnik_map_load_string _ _
      | C.mapnik_map_zoom_all _
      | C.mapnik_map_render_to_file _ _ _ _ _ => fun rc => Some rc
      | _ => fun _ => None
      end a
  end.

Definition statuses (t : list event) : list Z := omap status t.


(** The calls into the engine proper: the trace without the cgo helpers
    and the reads of C memory. *)
Definition is_engine_call (e : event) : bool :=
  match e with
  | Ev c _ =>
      match c with
      | C.CString _ | C.GoString _ | C.GoBytes _ _ | C.free _
      | C.blob_ptr _ | C.blob_len _ => false
      | _ => true
      end
  end.

Definition engine_calls (t : list event) : list event := filter is_engine_call t.

(** In the trace [t], the event [e] is followed at once by the retrieval of
    the last error of context [h], read as the Go string [text]. *)
Definition last_error_after (e : event) (h : C.ptr) (text : string) (t : list event) : Prop :=
  exists t1 p t2,
    t = (t1 ++ e :: Ev (C.mapnik_map_last_error h) p :: Ev (C.GoString p) text :: t2)%list.

(** [opts] with its field [Format] replaced. *)
Definition with_Format (f : string) (opts : RenderOpts) : RenderOpts :=
  {| Scale := Scale opts; ScaleFactor := ScaleFactor opts; Format := f |}.

(** What the caller of a function can observe of a run: the value returned
    and the Go heap. *)
Definition observed {W R : Type} (o : option (outcome (W := W) R)) : option (R * heap) :=
  (fun o => (result o, heap_after o)) <$> o.

(** The outcome of running [second] after [first]. *)
Definition after {W A R : Type} (first : outcome (W := W) A) (second : outcome (W := W) R) : outcome R :=
  {| result := result second; heap_after := heap_after second;
     world_after := world_after second; calls := (calls first ++ calls second)%list |}.

(** ** A stand-in engine

    A small deterministic engine on which the adapter can be run: C strings
    live in a table indexed by address, a stylesheet loads unless its file
    is ["missing.xml"] (or the document is empty), registering the
    directory ["/nonexistent"] fails and leaves a message in the error
    slot, rendering needs a loaded stylesheet, and the PNG encoder yields a
    blob holding the eight bytes of the PNG signature. *)
Module Stub.

Record world := {
  memory : gmap Z string;
  brk : Z;
  failure : string;
  styled : bool
}.

Definition start : world :=
  {| memory := {[ 1 := "3.0.9"; 2 := "+proj=longlat +datum=WGS84";
                  3 := "no such directory" ]};
     brk := 16; failure := EmptyString; styled := false |}.

Definition store (s : string) (w : world) : C.ptr * world :=
  (brk w, {| memory := <[brk w := s]> (memory w); brk := brk w + 1;
             failure := failure w; styled := styled w |}).

Definition release (p : C.ptr) (w : world) : world :=
  {| memory := delete p (memory w); brk := brk w;
     failure := failure w; styled := styled w |}.

Definition fail (rc : Z) (why : string) (w : world) : Z * world :=
  (rc, {| memory := memory w; brk := brk w; failure := why; styled := styled w |}).

Definition succeed (w : world) : Z * world :=
  (0, {| memory := memory w; brk := brk w; failure := failure w; styled := true |}).

Definition text (p : C.ptr) (w : world) : string :=
  default EmptyString (memory w !! p).

Definition signature : list byte := [x89; x50; x4e; x47; x0d; x0a; x1a; x0a].

Definition engine (A : Type) (c : C.call A) (w : world) : A * world :=
  match c in C.call A return A * world with
  | C.CString s => store s w
  | C.GoString p => (text p w, w)
  | C.GoBytes p n => (if (p =? 3000)%Z then take (Z.to_nat n) signature else [], w)
  | C.free p => (tt, release p w)
  | C.mapnik_version_string => (1, w)
  | C.mapnik_register_datasources path err =>
      if String.eqb (text path w) "/nonexistent" then ((1, 3), w) else ((0, err), w)
  | C.mapnik_register_fonts path err =>
      if String.eqb (text path w) "/nonexistent" then ((1, 3), w) else ((0, err), w)
  | C.mapnik_projection_free _ => (tt, w)
  | C.mapnik_projection_forward _ c => (c, w)
  | C.mapnik_map _ _ => (1000, w)
  | C.mapnik_map_last_error _ => store (failure w) w
  | C.mapnik_map_load _ cs =>
      if String.eqb (text cs w) "missing.xml"
      then fail 1 "could not open missing.xml" w
      else succeed w
  | C.mapnik_map_load_string _ cs =>
      if String.eqb (text cs w) EmptyString
      then fail 1 "empty stylesheet" w
      else succeed w
  | C.mapnik_map_resize _ _ _ => (tt, w)
  | C.mapnik_map_free _ => (tt, w)
  | C.mapnik_map_get_srs _ => (2, w)
  | C.mapnik_map_set_srs _ _ => (tt, w)
  | C.mapnik_map_zoom_all _ =>
      if styled w then (0, w) else fail 1 "no layers" w
  | C.mapnik_bbox _ _ _ _ => (2000, w)
  | C.mapnik_bbox_free _ => (tt, w)
  | C.mapnik_map_zoom_to_box _ _ => (tt, w)
  | C.mapnik_map_render_to_file _ _ _ _ _ =>
      if styled w then (0, w) else fail 1 "nothing to render" w
  | C.mapnik_map_render_to_image _ _ _ =>
      if styled w then (3100, w) else fail C.NULL "nothing to render" w
  | C.mapnik_image_free _ => (tt, w)
  | C.mapnik_image_to_png_blob _ => (3200, w)
  | C.mapnik_image_blob_free _ => (tt, w)
  | C.blob_ptr _ => (3000, w)
  | C.blob_len _ => (8, w)
  | C.mapnik_map_projection _ => (4000, w)
  | C.mapnik_map_set_buffer_size _ _ => (tt, w)
  end.

(** A Go heap holding one [Map], around the stub's map handle. *)
Definition one_map : heap := {[ 1%positive := MapObj {| Map_m := 1000 |} ]}.

(** The same heap with a [Projection] beside the map. *)
Definition map_and_projection : heap :=
  <[ 2%positive := ProjectionObj {| Projection_p := 4000 |} ]> one_map.

(** The stub after a stylesheet was loaded. *)
Definition loaded : world :=
  {| memory := memory start; brk := brk start; failure := EmptyString; styled := true |}.

(** A Go heap holding one [Projection] and no [Map]. *)
Definition one_projection : heap :=
  {[ 2%positive := ProjectionObj {| Projection_p := 4000 |} ]}.

(** The stand-in engine with a PNG encoder whose blob reports a length of
    [2 ^ 32 - 1] bytes. *)
Definition oversized (A : Type) (c : C.call A) (w : world) : A * world :=
  match c in C.call A return A * world with
  | C.blob_len _ => (4294967295, w)
  | c => engine _ c w
  end.

(** [RenderOpts{}]: every field at its zero value. *)
Definition defaults : RenderOpts :=
  {| Scale := 0; ScaleFactor := 0; Format := EmptyString |}.

End Stub.

(** ** Vocabulary for the whole package *)

(** A call of one of the exported methods of [*Map], with its arguments. *)
Inductive method :=
| m_Load (stylesheetFile : string)
| m_LoadString (stylesheet : string)
| m_Resize (width height : Z)
| m_Free
| m_SRS
| m_SetSRS (srs : string)
| m_ZoomAll
| m_ZoomToMinMax (minx miny maxx maxy : float)
| m_RenderToFile (path : string) (opts : RenderOpts)
| m_RenderToMemoryPng (opts : RenderOpts)
| m_Projection
| m_SetBufferSize (s : Z).

(** A computation run for its effects only. *)
Definition discard {R : Type} (g : Go R) : Go unit := _ ← g; mret tt.

Definition invoke (mt : method) (m : pointer) : Go unit :=
  match mt with
  | m_Load stylesheetFile => discard (Map_Load m stylesheetFile)
  | m_LoadString stylesheet => discard (Map_LoadString m stylesheet)
  | m_Resize width height => Map_Resize m width height
  | m_Free => Map_Free m
  | m_SRS => discard (Map_SRS m)
  | m_SetSRS srs => Map_SetSRS m srs
  | m_ZoomAll => discard (Map_ZoomAll m)
  | m_ZoomToMinMax minx miny maxx maxy => Map_ZoomToMinMax m minx miny maxx maxy
  | m_RenderToFile path opts => discard (Map_RenderToFile m path opts)
  | m_RenderToMemoryPng opts => discard (Map_RenderToMemoryPng m opts)
  | m_Projection => discard (Map_Projection m)
  | m_SetBufferSize s => Map_SetBufferSize m s
  end.

(** A call of any exported function or method of the package. *)
Inductive operation :=
| f_Version
| f_RegisterDatasources (path : string)
| f_RegisterFonts (path : string)
| f_NewMap (width height : Z)
| f_Projection_Free (p : pointer)
| f_Projection_Forward (p : Projection) (coord : Coord)
| f_Map (mt : method) (m : pointer).

Definition execute (op : operation) : Go unit :=
  match op with
  | f_Version => discard Version
  | f_RegisterDatasources path => RegisterDatasources path
  | f_RegisterFonts path => RegisterFonts path
  | f_NewMap width height => discard (NewMap width height)
  | f_Projection_Free p => Projection_Free p
  | f_Projection_Forward p coord => discard (Projection_Forward p coord)
  | f_Map mt m => invoke mt m
  end.

(** The one method that reads the blob the PNG encoder answered. *)
Definition reads_a_blob (mt : method) : bool :=
  match mt with
  | m_RenderToMemoryPng _ => true
  | _ => false
  end.

(** The operations that write to the Go heap: the two [Free] methods, which
    assign to the receiver, and [NewMap], which allocates. *)
Definition mutates (op : operation) : bool :=
  match op with
  | f_NewMap _ _ | f_Projection_Free _ | f_Map m_Free _ => true
  | _ => false
  end.

(** The map context an engine call is addressed to, if it takes one. *)
Definition map_handle (e : event) : option C.ptr :=
  match e with
  | Ev c _ =>
      match c with
      | C.mapnik_map_last_error m | C.mapnik_map_load m _
      | C.mapnik_map_load_string m _ | C.mapnik_map_resize m _ _
      | C.mapnik_map_free m | C.mapnik_map_get_srs m
      | C.mapnik_map_set_srs m _ | C.mapnik_map_zoom_all m
      | C.mapnik_map_zoom_to_box m _ | C.mapnik_map_render_to_file m _ _ _ _
      | C.mapnik_map_render_to_image m _ _ | C.mapnik_map_projection m
      | C.mapnik_map_set_buffer_size m _ => Some m
      | _ => None
      end
  end.

Definition map_handles (t : list event) : list C.ptr := omap map_handle t.

(** The C strings made by [C.CString] during a run, and the pointers given
    to [C.free], both in order. *)
Definition allocated (t : list event) : list C.ptr :=
  omap (fun e => match e with
                 | Ev c a =>
                     match c in C.call A return A -> option C.ptr with
                     | C.CString _ => fun p => Some p
                     | _ => fun _ => None
                     end a
                 end) t.

Definition freed (t : list event) : list C.ptr :=
  omap (fun e => match e with
                 | Ev c _ => match c with C.free p => Some p | _ => None end
                 end) t.

(** How many times a run asks the engine for a last error. *)
Definition is_last_error_fetch (e : event) : bool :=
  match e with
  | Ev c _ => match c with C.mapnik_map_last_error _ => true | _ => false end
  end.

Definition last_error_fetches (t : list event) : nat :=
  length (filter is_last_error_fetch t).

(** The scale factors given to the two render entry points. *)
Definition scale_factors (t : list event) : list float :=
  omap (fun e => match e with
                 | Ev c _ =>
                     match c with
                     | C.mapnik_map_render_to_file _ _ _ sf _
                     | C.mapnik_map_render_to_image _ _ sf => Some sf
                     | _ => None
                     end
                 end) t.

(** What [Load] of a missing file leaves on the stand-in engine. *)
Definition missing_file_outcome : outcome unit :=
  Eval vm_compute in
    default {| result := tt; heap_after := ∅; world_after := Stub.start; calls := [] |}
      (run Stub.engine (execute (f_Map (m_Load "missing.xml") (ref 1)))
         Stub.one_map Stub.start).

Section Facts.

Context {W : Type}.
Variable engine : forall A : Type, C.call A -> W -> A * W.

(** Names the answer of the next foreign call and the state it leaves. *)
Ltac answer :=
  match goal with
  | |- context [engine ?A ?c ?w] => destruct (engine A c w) as [? ?] eqn:?
  end.

(** Runs one step of a computation whose receiver is known to be in the
    heap: reduce, look the receiver up, name the engine's next answer. *)
Ltac exec H :=
  repeat first
    [ progress cbn
    | rewrite H
    | answer
    | match goal with u : unit |- _ => destruct u end ].

(** Splits on the status code under test. *)
Ltac on_status :=
  match goal with
  | |- context [(?a =? 0)%Z] => destruct (Z.eqb_spec a 0)
  end.

(** Finds the retrieval of the last error after at most two earlier calls. *)
Ltac locate_last_error :=
  unfold last_error_after;
  first [ by (eexists [], _, _) | by (eexists [_], _, _) | by (eexists [_; _], _, _) ].

(** Splits on the test the computation is stuck on: a status code, a
    handle compared with [NULL], the sign of a length, or a format compared
    with the empty string. *)
Ltac branch :=
  match goal with
  | |- context [(?a =? 0)%Z] => destruct (Z.eqb_spec a 0)
  | |- context [(?a =? C.NULL)%Z] => destruct (Z.eqb_spec a C.NULL)
  | |- context [(?a <? 0)%Z] => destruct (Z.ltb_spec a 0)
  | |- context [String.eqb ?a ?b] => destruct (String.eqb_spec a b)
  end.

(** Closes a goal about the outcome of a run that has been computed: a
    panic has no outcome, and a returned outcome is the computed one. *)
Ltac returned :=
  let Ho := fresh "Ho" in
  intros Ho; first [ discriminate Ho | injection Ho as Ho; rewrite <- Ho; by cbn ].

(** Runs a computation to its end along every path. *)
Ltac paths H := repeat (exec H; branch); exec H.

(** Proves a case analysis on the answers of the engine once the run has
    been computed along one path: the cases that are not on the path
    contradict it, and the case on the path holds by computation. *)
Ltac settle :=
  lazymatch goal with
  | |- _ /\ _ => split; settle
  | |- _ -> _ => let H := fresh in intros H; first [ congruence | lia | settle ]
  | |- forall _, _ => intro; settle
  | |- exists _, _ => eexists; settle
  | |- _ => reflexivity
  end.

(** How [RenderToMemoryPng] runs on a [Map] that is in the heap, case by
    case on what the engine answers: the image handle, then the blob, then
    the length of the blob. *)
Lemma RenderToMemoryPng_runs (hp : heap) (w : W) (l : positive) (v : Map)
    (opts : RenderOpts) :
  hp !! l = Some (MapObj v) ->
  let prog := Map_RenderToMemoryPng (ref l) opts in
  exists (i : C.ptr) (rest : list event),
    let render := Ev (C.mapnik_map_render_to_image (Map_m v) (Scale opts) (scaleFactor opts)) i in
    calls_made engine prog hp w = render :: rest /\
    (i = C.NULL ->
     exists (e : C.ptr) (text : string) (o : outcome (bytes * error)),
       rest = [Ev (C.mapnik_map_last_error (Map_m v)) e; Ev (C.GoString e) text] /\
       run engine prog hp w = Some o /\
       calls o = render :: rest /\
       heap_after o = hp /\
       result o = (None, Some (errors.New (String.append "mapnik: " text)))) /\
    (i <> C.NULL ->
     exists (b : C.ptr) (rest1 : list event),
       rest = Ev (C.mapnik_image_to_png_blob i) b :: rest1 /\
       (b = C.NULL -> rest1 = [] /\ run engine prog hp w = None) /\
       (b <> C.NULL ->
        exists (p : C.ptr) (n : Z) (rest2 : list event),
          rest1 = Ev (C.blob_ptr b) p :: Ev (C.blob_len b) n :: rest2 /\
          (C.int n < 0 -> rest2 = [] /\ run engine prog hp w = None) /\
          (0 <= C.int n ->
           exists (bs : list byte) (o : outcome (bytes * error)),
             rest2 = [ Ev (C.GoBytes p (C.int n)) bs;
                       Ev (C.mapnik_image_blob_free b) tt;
                       Ev (C.mapnik_image_free i) tt ] /\
             run engine prog hp w = Some o /\
             calls o = render :: rest /\
             heap_after o = hp /\
             result o = (Some bs, None)))).
Proof.
  intros Hl prog. unfold prog, Map_RenderToMemoryPng, blob_field, GoBytes.
  paths Hl; settle.
Qed.

(** C1.  Each of [Load], [LoadString], [ZoomAll] and [RenderToFile], run on
    a [Map] that is in the heap, returns and leaves the Go heap as it was.
    Exactly one status code comes back from the engine.  When it is zero the
    operation returns [nil].  When it is not, the status call is followed at
    once by the retrieval of the context's last error, and the operation
    returns a non-nil error whose text is ["mapnik: "] followed by that
    string; the text is therefore never empty. *)
Theorem fallible_status_protocol (op : fallible) (hp : heap) (w : W) (l : positive) (v : Map) :
  hp !! l = Some (MapObj v) ->
  exists (o : outcome error) (rc : Z),
    run engine (perform op (ref l)) hp w = Some o /\
    heap_after o = hp /\
    statuses (calls o) = [rc] /\
    (rc = 0 -> result o = None) /\
    (rc <> 0 ->
     exists (e : event) (text : string),
       last_error_after e (Map_m v) text (calls o) /\
       status e = Some rc /\
       result o = Some (errors.New (String.append "mapnik: " text)) /\
       errors.Error (errors.New (String.append "mapnik: " text)) <> EmptyString).
Proof.
  intros Hl.
  destruct op as [file | sheet | | path opts]; unfold perform;
    [ | | | unfold Map_RenderToFile; destruct (negb (String.eqb (Format opts) EmptyString)) ];
    exec Hl; on_status; exec Hl.
  all: eexists _, _; split; [reflexivity |]; cbn.
  all: split; [reflexivity |]; split; [reflexivity |].
  all: split; [intros; congruence |]; intros Hrc; try congruence.
  all: eexists _, _; split; [locate_last_error |].
  all: by repeat split.
Qed.


(** C3.  [RenderToFile] calls the engine's file renderer with the scale of
    the options, with scale factor [1.0] when [opts.ScaleFactor] compares
    equal to zero and [opts.ScaleFactor] itself otherwise, and with the C
    copy of ["png8"] when [opts.Format] is empty and of [opts.Format]
    otherwise; it is the only status call of the run.  Hence a call with an
    empty format runs exactly as the same call with format ["png8"]. *)
Theorem RenderToFile_defaults (hp : heap) (w : W) (l : positive) (v : Map)
    (path : string) (opts : RenderOpts) :
  hp !! l = Some (MapObj v) ->
  (exists (o : outcome error) (f : string) (sf : float) (format cs : C.ptr) (rc : Z)
          (rest : list event),
     run engine (Map_RenderToFile (ref l) path opts) hp w = Some o /\
     calls o = Ev (C.CString f) format
               :: Ev (C.CString path) cs
               :: Ev (C.mapnik_map_render_to_file (Map_m v) cs (Scale opts) sf format) rc
               :: rest /\
     statuses rest = [] /\
     (PrimFloat.eqb (ScaleFactor opts) 0 = true -> sf = 1%float) /\
     (PrimFloat.eqb (ScaleFactor opts) 0 = false -> sf = ScaleFactor opts) /\
     (Format opts = EmptyString -> f = "png8") /\
     (Format opts <> EmptyString -> f = Format opts)) /\
  run engine (Map_RenderToFile (ref l) path (with_Format EmptyString opts)) hp w =
  run engine (Map_RenderToFile (ref l) path (with_Format "png8" opts)) hp w.
Proof.
  intros Hl. split; [| reflexivity].
  unfold Map_RenderToFile, scaleFactor.
  destruct (String.eqb_spec (Format opts) EmptyString) as [Hf | Hf];
    destruct (PrimFloat.eqb (ScaleFactor opts) 0) eqn:Hsf;
    exec Hl; on_status; exec Hl.
  all: eexists _, _, _, _, _, _, _; split; [reflexivity |]; cbn.
  all: split; [reflexivity |]; split; [reflexivity |].
  all: repeat split; intros; congruence.
Qed.


(** C5.  [RegisterDatasources] and [RegisterFonts] copy the path twice, the
    second copy being the error slot, pass both to the registry, and then
    only free the two copies: nothing the registry answered (its status,
    the content of the slot on return) is used afterwards.  Whatever the
    engine does, the caller gets back the unit value and an unchanged
    heap. *)
Theorem registration_failure_is_discarded (path : string) (hp : heap) (w : W) :
  (exists (cs err : C.ptr) (st : Z * C.ptr) (o : outcome unit),
     run engine (RegisterDatasources path) hp w = Some o /\
     calls o = [ Ev (C.CString path) cs; Ev (C.CString path) err;
                 Ev (C.mapnik_register_datasources cs err) st;
                 Ev (C.free err) tt; Ev (C.free cs) tt ]) /\
  (exists (cs err : C.ptr) (st : Z * C.ptr) (o : outcome unit),
     run engine (RegisterFonts path) hp w = Some o /\
     calls o = [ Ev (C.CString path) cs; Ev (C.CString path) err;
                 Ev (C.mapnik_register_fonts cs err) st;
                 Ev (C.free err) tt; Ev (C.free cs) tt ]) /\
  observed (run engine (RegisterDatasources path) hp w) = Some (tt, hp) /\
  observed (run engine (RegisterFonts path) hp w) = Some (tt, hp).
Proof.
  unfold observed, RegisterDatasources, RegisterFonts.
  split; [| split; [| split]]; exec hp; try reflexivity; by eexists _, _, _, _.
Qed.

(** C6.  For every [Map] in the heap, [Map.Free] makes the single call
    [mapnik_map_free] on the handle of the map and leaves the map with a
    nil handle; for every [Projection] in the heap, [Projection.Free] does
    the same with [mapnik_projection_free].  Every other object of the heap
    is left as it was.  Neither half needs an object of the other kind. *)
Theorem Free_nils_handle (hp : heap) (w : W) (l : positive) (v : Map)
    (l' : positive) (v' : Projection) :
  (hp !! l = Some (MapObj v) ->
   exists o : outcome unit,
     run engine (Map_Free (ref l)) hp w = Some o /\
     calls o = [Ev (C.mapnik_map_free (Map_m v)) tt] /\
     heap_after o !! l = Some (MapObj {| Map_m := C.NULL |}) /\
     forall a : positive, a <> l -> heap_after o !! a = hp !! a) /\
  (hp !! l' = Some (ProjectionObj v') ->
   exists o : outcome unit,
     run engine (Projection_Free (ref l')) hp w = Some o /\
     calls o = [Ev (C.mapnik_projection_free (Projection_p v')) tt] /\
     heap_after o !! l' = Some (ProjectionObj {| Projection_p := C.NULL |}) /\
     forall a : positive, a <> l' -> heap_after o !! a = hp !! a).
Proof.
  split.
  - intros Hl. unfold Map_Free. exec Hl. eexists. split; [reflexivity |]. cbn.
    split; [reflexivity |]. split; [apply lookup_insert_eq |].
    intros a Ha. by apply lookup_insert_ne.
  - intros Hl'. unfold Projection_Free. exec Hl'. eexists. split; [reflexivity |]. cbn.
    split; [reflexivity |]. split; [apply lookup_insert_eq |].
    intros a Ha. by apply lookup_insert_ne.
Qed.

(** Running a sequence: the first part, then the rest from the state the
    first part left. *)
Lemma run_bind {A R : Type} (g : Go A) (f : A -> Go R) (hp : heap) (w : W) :
  run engine (g ≫= f) hp w =
  first ← run engine g hp w;
  after first <$> run engine (f (result first)) (heap_after first) (world_after first).
Proof.
  revert hp w. induction g as [r | B c k IH | u k IH | q k IH | q u k IH |]; intros hp w.
  - cbn. by destruct (run engine (f r) hp w) as [[]|].
  - cbn. destruct (engine B c w) as [a w']. change (bind (k a) f) with (k a ≫= f).
    rewrite IH. destruct (run engine (k a) hp w') as [first|]; [| done]. cbn.
    by destruct (run engine (f (result first)) (heap_after first) (world_after first)).
  - cbn. apply IH.
  - cbn. destruct q as [| a]; [done |]. destruct (hp !! a); [apply IH | done].
  - cbn. destruct q as [| a]; [done |]. destruct (hp !! a); [apply IH | done].
  - done.
Qed.

(** X18.  [init] takes no argument and always returns; its calls into the
    engine are one registration of [pluginPath] as datasource directory and
    one registration of [fontPath] as font directory, in this order, each
    on a C copy of the constant that is freed afterwards, and it leaves the
    Go heap alone. *)
Theorem init_registers_both_defaults (pluginPath fontPath : string) (hp : heap) (w : W) :
  exists (o : outcome unit) (cs err : C.ptr) (st : Z * C.ptr)
         (cs' err' : C.ptr) (st' : Z * C.ptr),
    run engine (init pluginPath fontPath) hp w = Some o /\
    calls o = [ Ev (C.CString pluginPath) cs; Ev (C.CString pluginPath) err;
                Ev (C.mapnik_register_datasources cs err) st;
                Ev (C.free err) tt; Ev (C.free cs) tt;
                Ev (C.CString fontPath) cs'; Ev (C.CString fontPath) err';
                Ev (C.mapnik_register_fonts cs' err') st';
                Ev (C.free err') tt; Ev (C.free cs') tt ] /\
    engine_calls (calls o) = [ Ev (C.mapnik_register_datasources cs err) st;
                               Ev (C.mapnik_register_fonts cs' err') st' ] /\
    heap_after o = hp.
Proof.
  unfold init, RegisterDatasources, RegisterFonts. exec hp.
  eexists _, _, _, _, _, _, _. by repeat split.
Qed.

(** C8.  [NewMap] always returns: it asks the engine for a map once and
    returns a pointer that is not nil, to a new [Map] that holds the handle
    the engine answered, whatever that handle is. *)
Theorem NewMap_cannot_fail (width height : Z) (hp : heap) (w : W) :
  exists (l : positive) (h : C.ptr) (o : outcome pointer),
    run engine (NewMap width height) hp w = Some o /\
    calls o = [Ev (C.mapnik_map (C.uint width) (C.uint height)) h] /\
    result o = ref l /\
    result o <> nil /\
    hp !! l = None /\
    heap_after o = <[l := MapObj {| Map_m := h |}]> hp.
Proof.
  unfold NewMap. exec hp.
  eexists (fresh (dom hp)), _, _. split; [reflexivity |]. cbn.
  repeat split; [done |].
  apply not_elem_of_dom, is_fresh.
Qed.

(** C9.  [Projection.Forward] always returns: it makes the single call
    [mapnik_projection_forward] on the projection's handle and the given
    coordinates, returns the engine's answer as a new [Coord], and leaves
    the Go heap (hence every wrapper) unchanged. *)
Theorem Forward_is_pure (p : Projection) (coord : Coord) (hp : heap) (w : W) :
  exists (c : C.mapnik_coord_t) (o : outcome Coord),
    run engine (Projection_Forward p coord) hp w = Some o /\
    calls o = [Ev (C.mapnik_projection_forward (Projection_p p)
                     {| C.x := X coord; C.y := Y coord |}) c] /\
    result o = {| X := C.x c; Y := C.y c |} /\
    heap_after o = hp.
Proof.
  unfold Projection_Forward. exec hp. by eexists _, _.
Qed.

(** A float below zero does not compare equal to zero. *)
Lemma negative_is_not_zero (x : float) :
  PrimFloat.ltb x 0 = true -> PrimFloat.eqb x 0 = false.
Proof.
  rewrite FloatAxioms.ltb_spec, FloatAxioms.eqb_spec.
  change (Prim2SF 0) with (S754_zero false).
  destruct (Prim2SF x) as [sign | sign | | sign m e]; cbn; try discriminate;
    destruct sign; cbn; congruence.
Qed.

(** C10.  [RenderToMemoryPng] first calls the engine's image renderer, with
    scale factor [1.0] when [opts.ScaleFactor] compares equal to zero and
    with [opts.ScaleFactor] itself otherwise, in particular when it is
    negative; it is the scale factor [RenderToFile] uses for the same
    options. *)
Theorem RenderToMemoryPng_scale_default (hp : heap) (w : W) (l : positive) (v : Map)
    (path : string) (opts : RenderOpts) :
  hp !! l = Some (MapObj v) ->
  exists (sf : float) (i : C.ptr) (rest : list event)
         (o' : outcome error) (e1 e2 : event) (cs format : C.ptr) (rc : Z)
         (rest' : list event),
    calls_made engine (Map_RenderToMemoryPng (ref l) opts) hp w =
      Ev (C.mapnik_map_render_to_image (Map_m v) (Scale opts) sf) i :: rest /\
    (PrimFloat.eqb (ScaleFactor opts) 0 = true -> sf = 1%float) /\
    (PrimFloat.eqb (ScaleFactor opts) 0 = false -> sf = ScaleFactor opts) /\
    (PrimFloat.ltb (ScaleFactor opts) 0 = true -> sf = ScaleFactor opts) /\
    run engine (Map_RenderToFile (ref l) path opts) hp w = Some o' /\
    calls o' = e1 :: e2
               :: Ev (C.mapnik_map_render_to_file (Map_m v) cs (Scale opts) sf format) rc
               :: rest'.
Proof.
  intros Hl. exists (scaleFactor opts).
  assert (Hneg : PrimFloat.ltb (ScaleFactor opts) 0 = true ->
                 scaleFactor opts = ScaleFactor opts).
  { intros Hlt. unfold scaleFactor. by rewrite (negative_is_not_zero _ Hlt). }
  assert (Hfile : exists (o' : outcome error) (e1 e2 : event) (cs format : C.ptr) (rc : Z)
                         (rest' : list event),
             run engine (Map_RenderToFile (ref l) path opts) hp w = Some o' /\
             calls o' = e1 :: e2
                        :: Ev (C.mapnik_map_render_to_file (Map_m v) cs (Scale opts)
                                 (scaleFactor opts) format) rc
                        :: rest').
  { unfold Map_RenderToFile.
    destruct (negb (String.eqb (Format opts) EmptyString));
      exec Hl; on_status; exec Hl; by eexists _, _, _, _, _, _, _. }
  destruct Hfile as (o' & e1 & e2 & cs & format & rc & rest' & Hrun' & Hcalls').
  destruct (RenderToMemoryPng_runs hp w l v opts Hl) as (i & rest & Hmade & _).
  exists i, rest, o', e1, e2, cs, format, rc, rest'.
  split; [exact Hmade |].
  unfold scaleFactor in *.
  destruct (PrimFloat.eqb (ScaleFactor opts) 0) eqn:Hzero.
  - repeat split; done || auto.
  - repeat split; done || auto.
Qed.

(** *** The package as a whole *)

(** X1.  Every method of [*Map], called on a [Map] that is in the heap,
    calls the engine on the handle stored in the receiver: each of the
    calls it makes that takes a map context is given that handle, and
    there is at least one.  Every method but [RenderToMemoryPng] also
    returns, whatever the engine answers. *)
Theorem methods_address_the_stored_context (mt : method) (hp : heap) (w : W)
    (l : positive) (v : Map) :
  hp !! l = Some (MapObj v) ->
  map_handles (calls_made engine (invoke mt (ref l)) hp w) <> [] /\
  Forall (eq (Map_m v)) (map_handles (calls_made engine (invoke mt (ref l)) hp w)) /\
  (reads_a_blob mt = false ->
   exists o : outcome unit,
     run engine (invoke mt (ref l)) hp w = Some o /\
     calls o = calls_made engine (invoke mt (ref l)) hp w).
Proof.
  intros Hl.
  destruct mt;
    unfold invoke, discard, Map_RenderToFile, Map_RenderToMemoryPng, blob_field, GoBytes;
    paths Hl;
    (split; [discriminate |]); (split; [repeat constructor |]);
    intros Hmt; first [ discriminate Hmt | by eexists ].
Qed.

(** X2.  Whenever an operation of the package returns, the pointers it gave
    to [C.free] are exactly the C strings it made with [C.CString], in the
    reverse order: no C string is leaked, and no string that belongs to the
    engine (a version, an SRS, a last error, the content of an error slot)
    is ever freed. *)
Theorem C_strings_are_released (op : operation) (hp : heap) (w : W) (o : outcome unit) :
  run engine (execute op) hp w = Some o ->
  freed (calls o) = rev (allocated (calls o)).
Proof.
  revert o.
  destruct op as [| path | path | width height | [| l] | p coord | mt [| l]];
    intros o; unfold execute, discard, RegisterDatasources, RegisterFonts.
  1-4, 7: paths hp; returned.
  1, 3: try destruct mt; unfold invoke, discard, Projection_Free, Map_RenderToFile;
    paths hp; returned.
  - unfold Projection_Free. cbn.
    destruct (hp !! l) as [[u | u] |] eqn:Hl; paths Hl; returned.
  - destruct (hp !! l) as [[u | u] |] eqn:Hl;
      destruct mt; unfold invoke, discard, Map_RenderToFile, Map_RenderToMemoryPng, blob_field, GoBytes;
      paths Hl; returned.
Qed.

(** X3.  Whenever an operation other than [NewMap] and the two [Free]
    methods returns, the Go heap is as it was before: in particular no
    error path and no render or zoom call alters the handle a [Map] holds. *)
Theorem only_NewMap_and_Free_write_the_heap (op : operation) (hp : heap) (w : W)
    (o : outcome unit) :
  mutates op = false ->
  run engine (execute op) hp w = Some o ->
  heap_after o = hp.
Proof.
  revert o.
  destruct op as [| path | path | width height | q | q coord | mt [| l]];
    intros o Hop; try discriminate Hop;
    unfold execute, discard, RegisterDatasources, RegisterFonts.
  1-4: paths hp; returned.
  - destruct mt; try discriminate Hop; unfold invoke, discard, Map_RenderToFile;
      paths hp; returned.
  - destruct (hp !! l) as [[u | u] |] eqn:Hl;
      destruct mt; try discriminate Hop;
      unfold invoke, discard, Map_RenderToFile, Map_RenderToMemoryPng, blob_field, GoBytes;
      paths Hl; returned.
Qed.

(** X4.  On a nil receiver every method of [*Map], and [Projection.Free],
    panics: none of them returns a value or an error. *)
Theorem nil_receiver_panics (mt : method) (hp : heap) (w : W) :
  run engine (invoke mt nil) hp w = None /\
  run engine (Projection_Free nil) hp w = None.
Proof.
  split; [| reflexivity].
  destruct mt; unfold invoke, discard, Map_RenderToFile; paths hp; reflexivity.
Qed.

(** X5.  There is no guard against use after [Free]: a method called on a
    [Map] after its [Free] calls the engine with the nil handle, and
    reports nothing of its own.  The handle that was released is given to
    the engine once, by [Free], and never again.  Every method but
    [RenderToMemoryPng] returns from such a call, whatever the engine
    answers. *)
Theorem use_after_Free_reaches_the_engine (mt : method) (hp : heap) (w : W)
    (l : positive) (v : Map) :
  hp !! l = Some (MapObj v) ->
  let prog := Map_Free (ref l);; invoke mt (ref l) in
  exists later : list C.ptr,
    map_handles (calls_made engine prog hp w) = Map_m v :: later /\
    later <> [] /\
    Forall (eq C.NULL) later /\
    (reads_a_blob mt = false ->
     exists o : outcome unit,
       run engine prog hp w = Some o /\
       calls o = calls_made engine prog hp w).
Proof.
  intros Hl prog. unfold prog.
  assert (Hnil : forall u : object, <[l := u]> hp !! l = Some u)
    by (intros u; apply lookup_insert_eq).
  destruct mt;
    unfold invoke, discard, Map_RenderToFile, Map_RenderToMemoryPng, blob_field, GoBytes;
    repeat progress (paths Hl; paths Hnil);
    eexists; (split; [reflexivity |]);
    (split; [discriminate |]); (split; [repeat constructor |]);
    intros Hmt; first [ discriminate Hmt | by eexists ].
Qed.

(** X6.  The pointer [NewMap] returns is a valid receiver: whatever the
    engine and the heap, a method called on it reaches the engine, and all
    its calls that take a map context are given the handle that
    [mapnik_map] answered, null or not.  Every method but
    [RenderToMemoryPng] returns from such a call. *)
Theorem methods_run_on_a_new_Map (width height : Z) (mt : method) (hp : heap) (w : W) :
  let prog := m ← NewMap width height; invoke mt m in
  exists (h : C.ptr) (rest : list event),
    calls_made engine prog hp w =
      Ev (C.mapnik_map (C.uint width) (C.uint height)) h :: rest /\
    map_handles rest <> [] /\
    Forall (eq h) (map_handles rest) /\
    (reads_a_blob mt = false ->
     exists o : outcome unit,
       run engine prog hp w = Some o /\
       calls o = calls_made engine prog hp w).
Proof.
  intros prog. unfold prog.
  assert (Hnew : forall (l : positive) (u : object), <[l := u]> hp !! l = Some u)
    by (intros l u; apply lookup_insert_eq).
  destruct mt;
    unfold invoke, discard, Map_RenderToFile, Map_RenderToMemoryPng, blob_field, GoBytes;
    paths Hnew;
    eexists _, _; (split; [reflexivity |]);
    (split; [discriminate |]); (split; [repeat constructor |]);
    intros Hmt; first [ discriminate Hmt | by eexists ].
Qed.

(** X7.  Two calls of [NewMap] return pointers to two distinct [Map]
    objects, also when the engine answers the same handle twice: [Free] on
    the first leaves the second wrapper with the handle it was given. *)
Theorem new_Maps_are_distinct (width height width' height' : Z) (hp : heap) (w : W) :
  exists (o : outcome (pointer * pointer)) (la lb : positive) (ha hb : C.ptr),
    run engine (a ← NewMap width height;
                b ← NewMap width' height';
                Map_Free a;;
                mret (a, b)) hp w = Some o /\
    result o = (ref la, ref lb) /\
    la <> lb /\
    calls o = [ Ev (C.mapnik_map (C.uint width) (C.uint height)) ha;
                Ev (C.mapnik_map (C.uint width') (C.uint height')) hb;
                Ev (C.mapnik_map_free ha) tt ] /\
    heap_after o !! la = Some (MapObj {| Map_m := C.NULL |}) /\
    heap_after o !! lb = Some (MapObj {| Map_m := hb |}).
Proof.
  exec hp.
  match goal with
  | |- context [<[?b := ?ub]> (<[?a := ?ua]> hp) !! ?a] =>
      assert (Hab : a <> b);
      [ intros Heq;
        apply (is_fresh (dom (<[a := ua]> hp)));
        fold b; rewrite <- Heq; apply elem_of_dom; exists ua; apply lookup_insert_eq
      | assert (Ha : <[b := ub]> (<[a := ua]> hp) !! a = Some ua)
          by (etrans; [apply lookup_insert_ne; congruence | apply lookup_insert_eq]) ]
  end.
  exec Ha.
  eexists _, _, _, _, _. split; [reflexivity |]. cbn.
  split; [reflexivity |]. split; [exact Hab |]. split; [reflexivity |].
  split; [apply lookup_insert_eq |].
  etrans; [apply lookup_insert_ne; congruence | apply lookup_insert_eq].
Qed.

(** X8.  The last error of the context is asked for only when something
    failed: a fallible operation that returns [nil] has made no
    [mapnik_map_last_error] call, one that returns an error has made exactly
    one; the same holds for [RenderToMemoryPng] whenever it returns. *)
Theorem last_error_is_fetched_only_on_failure (op : fallible) (opts : RenderOpts)
    (hp : heap) (w : W) (l : positive) (v : Map) :
  hp !! l = Some (MapObj v) ->
  (exists o : outcome error,
     run engine (perform op (ref l)) hp w = Some o /\
     last_error_fetches (calls o) = match result o with Some _ => 1%nat | None => 0%nat end) /\
  (forall o : outcome (bytes * error),
     run engine (Map_RenderToMemoryPng (ref l) opts) hp w = Some o ->
     last_error_fetches (calls o) =
       match snd (result o) with Some _ => 1%nat | None => 0%nat end).
Proof.
  intros Hl. split.
  - destruct op; unfold perform, Map_RenderToFile; paths Hl; by eexists.
  - intros o. unfold Map_RenderToMemoryPng, blob_field, GoBytes; paths Hl; returned.
Qed.

(** A float that differs from itself (a NaN) does not compare equal to
    zero. *)
Lemma nan_is_not_zero (x : float) :
  PrimFloat.eqb x x = false -> PrimFloat.eqb x 0 = false.
Proof.
  rewrite !FloatAxioms.eqb_spec.
  change (Prim2SF 0) with (S754_zero false).
  destruct (Prim2SF x) as [sign | sign | | sign m e]; cbn; try discriminate;
    try destruct sign; cbn; congruence.
Qed.

(** The scale factor the render functions compute is never zero. *)
Lemma scaleFactor_is_not_zero (opts : RenderOpts) :
  PrimFloat.eqb (scaleFactor opts) 0 = false.
Proof.
  unfold scaleFactor.
  destruct (PrimFloat.eqb (ScaleFactor opts) 0) eqn:Hzero; [reflexivity | exact Hzero].
Qed.

(** X9.  Neither render function ever gives the engine a scale factor that
    compares equal to zero: each makes one render call, both with the same
    scale factor, and it is not zero.  A NaN is not replaced: it reaches the
    engine as it is. *)
Theorem engine_never_gets_scale_factor_zero (path : string) (opts : RenderOpts)
    (hp : heap) (w : W) (l : positive) (v : Map) :
  hp !! l = Some (MapObj v) ->
  exists (o : outcome error) (sf : float),
    run engine (Map_RenderToFile (ref l) path opts) hp w = Some o /\
    scale_factors (calls o) = [sf] /\
    scale_factors (calls_made engine (Map_RenderToMemoryPng (ref l) opts) hp w) = [sf] /\
    PrimFloat.eqb sf 0 = false /\
    (PrimFloat.eqb (ScaleFactor opts) (ScaleFactor opts) = false -> sf = ScaleFactor opts).
Proof.
  intros Hl.
  assert (Hfile : exists o : outcome error,
             run engine (Map_RenderToFile (ref l) path opts) hp w = Some o /\
             scale_factors (calls o) = [scaleFactor opts]).
  { unfold Map_RenderToFile; paths Hl; by eexists. }
  assert (Hmem : scale_factors (calls_made engine (Map_RenderToMemoryPng (ref l) opts) hp w)
                 = [scaleFactor opts]).
  { unfold Map_RenderToMemoryPng, blob_field, GoBytes; paths Hl; reflexivity. }
  destruct Hfile as (o & Hrun & Hsf).
  exists o, (scaleFactor opts).
  repeat split; try assumption.
  - apply scaleFactor_is_not_zero.
  - intros Hnan. unfold scaleFactor. by rewrite (nan_is_not_zero _ Hnan).
Qed.

(** X10.  [ZoomToMinMax] validates nothing: whatever the four numbers (an
    inverted or empty box, NaN), it builds a box from them in the order
    given, zooms to whatever the engine answered for it, and frees the box
    after the zoom, leaving the Go heap alone. *)
Theorem ZoomToMinMax_passes_the_box_on (minx miny maxx maxy : float)
    (hp : heap) (w : W) (l : positive) (v : Map) :
  hp !! l = Some (MapObj v) ->
  exists (o : outcome unit) (bbox : C.ptr),
    run engine (Map_ZoomToMinMax (ref l) minx miny maxx maxy) hp w = Some o /\
    calls o = [ Ev (C.mapnik_bbox minx miny maxx maxy) bbox;
                Ev (C.mapnik_map_zoom_to_box (Map_m v) bbox) tt;
                Ev (C.mapnik_bbox_free bbox) tt ] /\
    heap_after o = hp.
Proof.
  intros Hl. unfold Map_ZoomToMinMax. exec Hl. by eexists _, _.
Qed.

(** X11.  [RenderToMemoryPng] releases what it obtained.  When the image
    handle is null it returns having freed nothing, its only other engine
    call being the retrieval of the last error.  Whenever it returns with
    an image handle that is not null, the image and the blob were each
    freed once, the blob first and only after its bytes were copied. *)
Theorem RenderToMemoryPng_releases_image_and_blob (opts : RenderOpts)
    (hp : heap) (w : W) (l : positive) (v : Map) :
  hp !! l = Some (MapObj v) ->
  let prog := Map_RenderToMemoryPng (ref l) opts in
  exists (i : C.ptr) (rest : list event),
    let render := Ev (C.mapnik_map_render_to_image (Map_m v) (Scale opts) (scaleFactor opts)) i in
    calls_made engine prog hp w = render :: rest /\
    (i = C.NULL ->
     exists (e : C.ptr) (o : outcome (bytes * error)),
       run engine prog hp w = Some o /\
       engine_calls (calls o) = [render; Ev (C.mapnik_map_last_error (Map_m v)) e]) /\
    (forall o : outcome (bytes * error),
       run engine prog hp w = Some o ->
       i <> C.NULL ->
       exists (b p : C.ptr) (n : Z) (bs : list byte),
         calls o = [ render;
                     Ev (C.mapnik_image_to_png_blob i) b;
                     Ev (C.blob_ptr b) p;
                     Ev (C.blob_len b) n;
                     Ev (C.GoBytes p (C.int n)) bs;
                     Ev (C.mapnik_image_blob_free b) tt;
                     Ev (C.mapnik_image_free i) tt ]).
Proof.
  intros Hl prog. unfold prog, Map_RenderToMemoryPng, blob_field, GoBytes.
  paths Hl; eexists _, _; (split; [reflexivity |]); split.
  all: try (intros Hi; congruence).
  all: try (intros _; by eexists _, _).
  all: intros o Ho Hi; first [ discriminate Ho | congruence | injection Ho as <- ].
  by eexists _, _, _, _.
Qed.

(** X19.  [RenderToMemoryPng] trusts the blob of the PNG encoder.  When the
    encoder answers a nil blob, reading its fields panics; when the length
    of the blob is negative once converted to a [C.int] (a length of
    [2 ^ 31] bytes or more), [C.GoBytes] panics.  In both cases the image
    was rendered and encoded, and the function returns neither bytes nor an
    error. *)
Theorem RenderToMemoryPng_panics_on_a_bad_blob (opts : RenderOpts)
    (hp : heap) (w : W) (l : positive) (v : Map) :
  hp !! l = Some (MapObj v) ->
  let prog := Map_RenderToMemoryPng (ref l) opts in
  exists (i : C.ptr) (rest : list event),
    calls_made engine prog hp w =
      Ev (C.mapnik_map_render_to_image (Map_m v) (Scale opts) (scaleFactor opts)) i :: rest /\
    (i <> C.NULL ->
     exists (b : C.ptr) (rest1 : list event),
       rest = Ev (C.mapnik_image_to_png_blob i) b :: rest1 /\
       (b = C.NULL -> run engine prog hp w = None) /\
       (b <> C.NULL ->
        exists (p : C.ptr) (n : Z) (rest2 : list event),
          rest1 = Ev (C.blob_ptr b) p :: Ev (C.blob_len b) n :: rest2 /\
          (C.int n < 0 -> run engine prog hp w = None) /\
          (2 ^ 31 <= n < 2 ^ 32 -> C.int n < 0))).
Proof.
  intros Hl prog.
  destruct (RenderToMemoryPng_runs hp w l v opts Hl) as (i & rest & Hmade & _ & Hhandle).
  fold prog in Hmade, Hhandle.
  exists i, rest. split; [exact Hmade |]. intros Hi.
  destruct (Hhandle Hi) as (b & rest1 & Hrest & Hnil & Hblob).
  exists b, rest1. split; [exact Hrest |]. split; [intros Hb; by destruct (Hnil Hb) |].
  intros Hb. destruct (Hblob Hb) as (p & n & rest2 & Hrest1 & Hneg & _).
  exists p, n, rest2. split; [exact Hrest1 |]. split; [intros Hn; by destruct (Hneg Hn) |].
  intros Hn. unfold C.int.
  replace ((n + 2 ^ 31) mod 2 ^ 32) with (n + 2 ^ 31 - 2 ^ 32); [lia |].
  apply Z.mod_unique with (q := 1); lia.
Qed.

(** [C.uint] keeps a [uint32]. *)
Lemma uint_of_uint32_is_identity (n : Z) : 0 <= n < 2 ^ 32 -> C.uint n = n.
Proof. intros Hn. unfold C.uint. by apply Z.mod_small. Qed.

(** [C.int] lands in the range of a 32-bit signed integer. *)
Lemma int_range (n : Z) : - 2 ^ 31 <= C.int n < 2 ^ 31.
Proof.
  unfold C.int.
  pose proof (Z.mod_pos_bound (n + 2 ^ 31) (2 ^ 32) ltac:(lia)). lia.
Qed.

(** [C.int] keeps a value that fits. *)
Lemma int_of_int32_is_identity (n : Z) : - 2 ^ 31 <= n < 2 ^ 31 -> C.int n = n.
Proof. intros Hn. unfold C.int. rewrite Z.mod_small; lia. Qed.

(** [C.int] only sees its argument modulo [2 ^ 32]. *)
Lemma int_is_periodic (n : Z) : C.int (n + 2 ^ 32) = C.int n.
Proof.
  unfold C.int. f_equal.
  replace (n + 2 ^ 32 + 2 ^ 31) with (n + 2 ^ 31 + 1 * 2 ^ 32) by lia.
  apply Z_mod_plus_full.
Qed.

(** X12.  The pixel dimensions given to [NewMap] and to [Resize] are
    [uint32] values, and they reach the engine unchanged: [NewMap] passes
    them on whatever the heap holds, and [Resize] on any [Map] that is in
    the heap, which it leaves as it was. *)
Theorem dimensions_reach_the_engine_unchanged (width height : Z)
    (hp : heap) (w : W) (l : positive) (v : Map) :
  0 <= width < 2 ^ 32 ->
  0 <= height < 2 ^ 32 ->
  (exists (o : outcome pointer) (h : C.ptr),
     run engine (NewMap width height) hp w = Some o /\
     calls o = [Ev (C.mapnik_map width height) h]) /\
  (hp !! l = Some (MapObj v) ->
   exists o : outcome unit,
     run engine (Map_Resize (ref l) width height) hp w = Some o /\
     calls o = [Ev (C.mapnik_map_resize (Map_m v) width height) tt] /\
     heap_after o = hp).
Proof.
  intros Hw Hh. unfold NewMap, Map_Resize.
  rewrite (uint_of_uint32_is_identity width Hw), (uint_of_uint32_is_identity height Hh).
  split; [| intros Hl]; exec Hl; [by eexists _, _ | by eexists].
Qed.

(** X13.  [SetBufferSize] takes an [int] and gives the engine a 32-bit
    [C.int]: a size that fits reaches the engine unchanged, while any other
    is silently reduced modulo [2 ^ 32] into the 32-bit range, so that [s]
    and [s + 2 ^ 32] make the same call. *)
Theorem SetBufferSize_truncates_to_32_bits (s : Z) (hp : heap) (w : W)
    (l : positive) (v : Map) :
  hp !! l = Some (MapObj v) ->
  exists (o : outcome unit) (size : Z),
    run engine (Map_SetBufferSize (ref l) s) hp w = Some o /\
    calls o = [Ev (C.mapnik_map_set_buffer_size (Map_m v) size) tt] /\
    - 2 ^ 31 <= size < 2 ^ 31 /\
    (- 2 ^ 31 <= s < 2 ^ 31 -> size = s) /\
    run engine (Map_SetBufferSize (ref l) (s + 2 ^ 32)) hp w =
    run engine (Map_SetBufferSize (ref l) s) hp w.
Proof.
  intros Hl. unfold Map_SetBufferSize.
  rewrite (int_is_periodic s).
  generalize (int_range s), (int_of_int32_is_identity s).
  generalize (C.int s) as size. intros size Hrange Hfits.
  exec Hl. eexists _, size.
  split; [reflexivity |]. split; [reflexivity |]. split; [exact Hrange |].
  split; [exact Hfits | reflexivity].
Qed.

(** X14.  [Projection.Free] clears the [Projection] it is called on, not its
    copies.  [Forward] on a copy taken before the [Free] still gives the
    released handle to the engine; [Forward] on the freed variable itself
    gives it the nil handle.  Neither panics or reports an error. *)
Theorem Projection_Free_does_not_reach_copies (coord : Coord) (hp : heap) (w : W)
    (l : positive) (v : Projection) :
  hp !! l = Some (ProjectionObj v) ->
  let c := {| C.x := X coord; C.y := Y coord |} in
  (exists (o : outcome Coord) (c' : C.mapnik_coord_t),
     run engine (Projection_Free (ref l);; Projection_Forward v coord) hp w = Some o /\
     calls o = [ Ev (C.mapnik_projection_free (Projection_p v)) tt;
                 Ev (C.mapnik_projection_forward (Projection_p v) c) c' ]) /\
  (exists (o : outcome Coord) (c' : C.mapnik_coord_t),
     run engine (Projection_Free (ref l);;
                 p ← deref_Projection (ref l);
                 Projection_Forward p coord) hp w = Some o /\
     calls o = [ Ev (C.mapnik_projection_free (Projection_p v)) tt;
                 Ev (C.mapnik_projection_forward C.NULL c) c' ]).
Proof.
  intros Hl c.
  assert (Hnil : forall u : object, <[l := u]> hp !! l = Some u)
    by (intros u; apply lookup_insert_eq).
  split; exec Hl; exec Hnil; by eexists _, _.
Qed.

(** X15.  The [Projection] obtained from a [Map] has a handle of its own:
    [Map.Free] frees the map context only, and [Forward] afterwards still
    transforms through the handle [mapnik_map_projection] answered. *)
Theorem Projection_outlives_its_Map (coord : Coord) (hp : heap) (w : W)
    (l : positive) (v : Map) :
  hp !! l = Some (MapObj v) ->
  exists (o : outcome Coord) (h : C.ptr) (c' : C.mapnik_coord_t),
    run engine (p ← Map_Projection (ref l);
                Map_Free (ref l);;
                Projection_Forward p coord) hp w = Some o /\
    calls o = [ Ev (C.mapnik_map_projection (Map_m v)) h;
                Ev (C.mapnik_map_free (Map_m v)) tt;
                Ev (C.mapnik_projection_forward h {| C.x := X coord; C.y := Y coord |}) c' ] /\
    result o = {| X := C.x c'; Y := C.y c' |}.
Proof.
  intros Hl. exec Hl. by eexists _, _, _.
Qed.

(** X16.  Strings cross the boundary unchanged and unchecked.  [Version],
    which needs no [Map], is ["Mapnik "] followed by the engine's version
    string, so it is never empty.  On a [Map] that is in the heap, [SRS] is
    the engine's string as it is, and [SetSRS] hands the engine a C copy of
    exactly the string given, whatever it is, and reports nothing back. *)
Theorem strings_cross_the_boundary_unchanged (srs : string) (hp : heap) (w : W)
    (l : positive) (v : Map) :
  (exists (o : outcome string) (p : C.ptr) (text : string),
     run engine Version hp w = Some o /\
     calls o = [Ev C.mapnik_version_string p; Ev (C.GoString p) text] /\
     result o = String.append "Mapnik " text /\
     String.length (result o) = (7 + String.length text)%nat) /\
  (hp !! l = Some (MapObj v) ->
   (exists (o : outcome string) (p : C.ptr) (text : string),
      run engine (Map_SRS (ref l)) hp w = Some o /\
      calls o = [Ev (C.mapnik_map_get_srs (Map_m v)) p; Ev (C.GoString p) text] /\
      result o = text) /\
   (exists (o : outcome unit) (cs : C.ptr),
      run engine (Map_SetSRS (ref l) srs) hp w = Some o /\
      calls o = [ Ev (C.CString srs) cs;
                  Ev (C.mapnik_map_set_srs (Map_m v) cs) tt;
                  Ev (C.free cs) tt ] /\
      observed (Some o) = Some (tt, hp))).
Proof.
  split; [| intros Hl; split].
  - unfold Version. exec hp. by eexists _, _, _.
  - unfold Map_SRS. exec Hl. by eexists _, _, _.
  - unfold Map_SetSRS. exec Hl. by eexists _, _.
Qed.

(** X17.  [Load] and [LoadString] each use their own entry point and give
    it a C copy of exactly the string they received: a file name goes to
    [mapnik_map_load], a stylesheet document to [mapnik_map_load_string],
    and in both cases the copy is freed last, after the status was read and
    any error was built. *)
Theorem stylesheets_reach_their_entry_point (text : string) (hp : heap) (w : W)
    (l : positive) (v : Map) :
  hp !! l = Some (MapObj v) ->
  (exists (o : outcome error) (cs : C.ptr) (rc : Z) (middle : list event),
     run engine (Map_Load (ref l) text) hp w = Some o /\
     calls o = (Ev (C.CString text) cs :: Ev (C.mapnik_map_load (Map_m v) cs) rc
                :: middle ++ [Ev (C.free cs) tt])%list /\
     statuses middle = []) /\
  (exists (o : outcome error) (cs : C.ptr) (rc : Z) (middle : list event),
     run engine (Map_LoadString (ref l) text) hp w = Some o /\
     calls o = (Ev (C.CString text) cs :: Ev (C.mapnik_map_load_string (Map_m v) cs) rc
                :: middle ++ [Ev (C.free cs) tt])%list /\
     statuses middle = []).
Proof.
  intros Hl.
  split; [unfold Map_Load | unfold Map_LoadString]; paths Hl;
    first [ by (eexists _, _, _, []) | by (eexists _, _, _, [_; _]) ].
Qed.

End Facts.

(** ** The adapter on the stand-in engine *)

Example Load_missing_file :
  observed (run Stub.engine (Map_Load (ref 1) "missing.xml") Stub.one_map Stub.start) =
  Some (Some (errors.New "mapnik: could not open missing.xml"), Stub.one_map).
Proof. vm_compute. reflexivity. Qed.

Example RenderToMemoryPng_with_jpeg80 :
  result <$> run Stub.engine
    (m ← NewMap 256 256;
     _ ← Map_LoadString m "<Map/>";
     Map_ZoomToMinMax m (-180) (-90) 180 90;;
     Map_RenderToMemoryPng m {| Scale := 0; ScaleFactor := 0; Format := "jpeg80" |})
    ∅ Stub.start =
  Some (Some Stub.signature, None).
Proof. vm_compute. reflexivity. Qed.

Example RenderToMemoryPng_without_stylesheet :
  observed (run Stub.engine (Map_RenderToMemoryPng (ref 1) Stub.defaults)
              Stub.one_map Stub.start) =
  Some ((None, Some (errors.New "mapnik: nothing to render")), Stub.one_map).
Proof. vm_compute. reflexivity. Qed.

Example RegisterDatasources_failure_unseen :
  observed (run Stub.engine (RegisterDatasources "/nonexistent") ∅ Stub.start) =
  observed (run Stub.engine (RegisterDatasources "/usr/lib/mapnik/input") ∅ Stub.start).
Proof. vm_compute. reflexivity. Qed.

Example scaleFactor_of_negative_zero :
  scaleFactor {| Scale := 0; ScaleFactor := (-0)%float; Format := EmptyString |} = 1%float.
Proof. reflexivity. Qed.

Example scaleFactor_of_negative :
  scaleFactor {| Scale := 0; ScaleFactor := (-2)%float; Format := EmptyString |} = (-2)%float.
Proof. reflexivity. Qed.

Example uint_of_uint32 : C.uint 256 = 256 /\ C.uint (2 ^ 32 - 1) = 2 ^ 32 - 1.
Proof. split; reflexivity. Qed.

(** ** The theorems at concrete inputs

    Each theorem above that assumes the receiver to be in the heap is
    applied here to the stand-in engine and a heap holding the object. *)

Lemma fallible_status_protocol_witness :
  Stub.one_map !! 1%positive = Some (MapObj {| Map_m := 1000 |}) /\
  exists (o : outcome error) (rc : Z),
    run Stub.engine (perform (op_Load "missing.xml") (ref 1)) Stub.one_map Stub.start = Some o /\
    heap_after o = Stub.one_map /\
    statuses (calls o) = [rc] /\
    (rc = 0 -> result o = None) /\
    (rc <> 0 ->
     exists (e : event) (text : string),
       last_error_after e 1000 text (calls o) /\
       status e = Some rc /\
       result o = Some (errors.New (String.append "mapnik: " text)) /\
       errors.Error (errors.New (String.append "mapnik: " text)) <> EmptyString).
Proof.
  split; [reflexivity |].
  apply (fallible_status_protocol Stub.engine (op_Load "missing.xml")
           Stub.one_map Stub.start 1 {| Map_m := 1000 |}).
  reflexivity.
Defined.


Lemma RenderToFile_defaults_witness :
  Stub.one_map !! 1%positive = Some (MapObj {| Map_m := 1000 |}) /\
  (exists (o : outcome error) (f : string) (sf : float) (format cs : C.ptr) (rc : Z)
          (rest : list event),
     run Stub.engine (Map_RenderToFile (ref 1) "out.png" Stub.defaults)
       Stub.one_map Stub.loaded = Some o /\
     calls o = Ev (C.CString f) format
               :: Ev (C.CString "out.png") cs
               :: Ev (C.mapnik_map_render_to_file 1000 cs (Scale Stub.defaults) sf format) rc
               :: rest /\
     statuses rest = [] /\
     (PrimFloat.eqb (ScaleFactor Stub.defaults) 0 = true -> sf = 1%float) /\
     (PrimFloat.eqb (ScaleFactor Stub.defaults) 0 = false -> sf = ScaleFactor Stub.defaults) /\
     (Format Stub.defaults = EmptyString -> f = "png8") /\
     (Format Stub.defaults <> EmptyString -> f = Format Stub.defaults)) /\
  run Stub.engine (Map_RenderToFile (ref 1) "out.png" (with_Format EmptyString Stub.defaults))
    Stub.one_map Stub.loaded =
  run Stub.engine (Map_RenderToFile (ref 1) "out.png" (with_Format "png8" Stub.defaults))
    Stub.one_map Stub.loaded.
Proof.
  split; [reflexivity |].
  apply (RenderToFile_defaults Stub.engine Stub.one_map Stub.loaded 1
           {| Map_m := 1000 |} "out.png" Stub.defaults).
  reflexivity.
Defined.


Lemma Free_nils_handle_witness :
  (Stub.one_map !! 1%positive = Some (MapObj {| Map_m := 1000 |}) /\
   exists o : outcome unit,
     run Stub.engine (Map_Free (ref 1)) Stub.one_map Stub.start = Some o /\
     calls o = [Ev (C.mapnik_map_free 1000) tt] /\
     heap_after o !! 1%positive = Some (MapObj {| Map_m := C.NULL |}) /\
     forall a : positive, a <> 1%positive -> heap_after o !! a = Stub.one_map !! a) /\
  (Stub.one_projection !! 2%positive = Some (ProjectionObj {| Projection_p := 4000 |}) /\
   exists o : outcome unit,
     run Stub.engine (Projection_Free (ref 2)) Stub.one_projection Stub.start = Some o /\
     calls o = [Ev (C.mapnik_projection_free 4000) tt] /\
     heap_after o !! 2%positive = Some (ProjectionObj {| Projection_p := C.NULL |}) /\
     forall a : positive, a <> 2%positive -> heap_after o !! a = Stub.one_projection !! a).
Proof.
  split; (split; [reflexivity |]).
  - apply (proj1 (Free_nils_handle Stub.engine Stub.one_map Stub.start
                    1 {| Map_m := 1000 |} 2 {| Projection_p := 4000 |})).
    reflexivity.
  - apply (proj2 (Free_nils_handle Stub.engine Stub.one_projection Stub.start
                    1 {| Map_m := 1000 |} 2 {| Projection_p := 4000 |})).
    reflexivity.
Defined.

Lemma RenderToMemoryPng_scale_default_witness :
  Stub.one_map !! 1%positive = Some (MapObj {| Map_m := 1000 |}) /\
  exists (sf : float) (i : C.ptr) (rest : list event)
         (o' : outcome error) (e1 e2 : event) (cs format : C.ptr) (rc : Z)
         (rest' : list event),
    calls_made Stub.engine (Map_RenderToMemoryPng (ref 1) Stub.defaults)
      Stub.one_map Stub.loaded =
      Ev (C.mapnik_map_render_to_image 1000 (Scale Stub.defaults) sf) i :: rest /\
    (PrimFloat.eqb (ScaleFactor Stub.defaults) 0 = true -> sf = 1%float) /\
    (PrimFloat.eqb (ScaleFactor Stub.defaults) 0 = false -> sf = ScaleFactor Stub.defaults) /\
    (PrimFloat.ltb (ScaleFactor Stub.defaults) 0 = true -> sf = ScaleFactor Stub.defaults) /\
    run Stub.engine (Map_RenderToFile (ref 1) "out.png" Stub.defaults)
      Stub.one_map Stub.loaded = Some o' /\
    calls o' = e1 :: e2
               :: Ev (C.mapnik_map_render_to_file 1000 cs (Scale Stub.defaults) sf format) rc
               :: rest'.
Proof.
  split; [reflexivity |].
  apply (RenderToMemoryPng_scale_default Stub.engine Stub.one_map Stub.loaded 1
           {| Map_m := 1000 |} "out.png" Stub.defaults).
  reflexivity.
Defined.

Lemma methods_address_the_stored_context_witness :
  let made := calls_made Stub.engine (invoke (m_RenderToFile "out.png" Stub.defaults) (ref 1))
                Stub.one_map Stub.start in
  map_handles made <> [] /\
  Forall (eq 1000) (map_handles made) /\
  (reads_a_blob (m_RenderToFile "out.png" Stub.defaults) = false ->
   exists o : outcome unit,
     run Stub.engine (invoke (m_RenderToFile "out.png" Stub.defaults) (ref 1))
       Stub.one_map Stub.start = Some o /\
     calls o = made).
Proof.
  apply (methods_address_the_stored_context Stub.engine
           (m_RenderToFile "out.png" Stub.defaults)
           Stub.one_map Stub.start 1 {| Map_m := 1000 |}).
  reflexivity.
Defined.

Lemma C_strings_are_released_witness :
  run Stub.engine (execute (f_Map (m_Load "missing.xml") (ref 1)))
    Stub.one_map Stub.start = Some missing_file_outcome /\
  freed (calls missing_file_outcome) = rev (allocated (calls missing_file_outcome)).
Proof.
  split; [vm_compute; reflexivity |].
  apply (C_strings_are_released Stub.engine (f_Map (m_Load "missing.xml") (ref 1))
           Stub.one_map Stub.start).
  vm_compute; reflexivity.
Defined.

Lemma only_NewMap_and_Free_write_the_heap_witness :
  mutates (f_Map (m_Load "missing.xml") (ref 1)) = false /\
  run Stub.engine (execute (f_Map (m_Load "missing.xml") (ref 1)))
    Stub.one_map Stub.start = Some missing_file_outcome /\
  heap_after missing_file_outcome = Stub.one_map.
Proof.
  split; [reflexivity |]. split; [vm_compute; reflexivity |].
  apply (only_NewMap_and_Free_write_the_heap Stub.engine
           (f_Map (m_Load "missing.xml") (ref 1)) Stub.one_map Stub.start).
  - reflexivity.
  - vm_compute; reflexivity.
Defined.

Lemma use_after_Free_reaches_the_engine_witness :
  let prog := Map_Free (ref 1);; invoke m_ZoomAll (ref 1) in
  exists later : list C.ptr,
    map_handles (calls_made Stub.engine prog Stub.one_map Stub.start) = 1000 :: later /\
    later <> [] /\
    Forall (eq C.NULL) later /\
    (reads_a_blob m_ZoomAll = false ->
     exists o : outcome unit,
       run Stub.engine prog Stub.one_map Stub.start = Some o /\
       calls o = calls_made Stub.engine prog Stub.one_map Stub.start).
Proof.
  apply (use_after_Free_reaches_the_engine Stub.engine m_ZoomAll
           Stub.one_map Stub.start 1 {| Map_m := 1000 |}).
  reflexivity.
Defined.

Lemma last_error_is_fetched_only_on_failure_witness :
  (exists o : outcome error,
     run Stub.engine (perform op_ZoomAll (ref 1)) Stub.one_map Stub.start = Some o /\
     last_error_fetches (calls o) = match result o with Some _ => 1%nat | None => 0%nat end) /\
  (forall o : outcome (bytes * error),
     run Stub.engine (Map_RenderToMemoryPng (ref 1) Stub.defaults)
       Stub.one_map Stub.start = Some o ->
     last_error_fetches (calls o) =
       match snd (result o) with Some _ => 1%nat | None => 0%nat end).
Proof.
  apply (last_error_is_fetched_only_on_failure Stub.engine op_ZoomAll Stub.defaults
           Stub.one_map Stub.start 1 {| Map_m := 1000 |}).
  reflexivity.
Defined.

Lemma engine_never_gets_scale_factor_zero_witness :
  exists (o : outcome error) (sf : float),
    run Stub.engine (Map_RenderToFile (ref 1) "out.png" Stub.defaults)
      Stub.one_map Stub.loaded = Some o /\
    scale_factors (calls o) = [sf] /\
    scale_factors (calls_made Stub.engine (Map_RenderToMemoryPng (ref 1) Stub.defaults)
                     Stub.one_map Stub.loaded) = [sf] /\
    PrimFloat.eqb sf 0 = false /\
    (PrimFloat.eqb (ScaleFactor Stub.defaults) (ScaleFactor Stub.defaults) = false ->
     sf = ScaleFactor Stub.defaults).
Proof.
  apply (engine_never_gets_scale_factor_zero Stub.engine "out.png" Stub.defaults
           Stub.one_map Stub.loaded 1 {| Map_m := 1000 |}).
  reflexivity.
Defined.

Lemma ZoomToMinMax_passes_the_box_on_witness :
  exists (o : outcome unit) (bbox : C.ptr),
    run Stub.engine (Map_ZoomToMinMax (ref 1) 180 90 (-180) (-90))
      Stub.one_map Stub.start = Some o /\
    calls o = [ Ev (C.mapnik_bbox 180 90 (-180) (-90)) bbox;
                Ev (C.mapnik_map_zoom_to_box 1000 bbox) tt;
                Ev (C.mapnik_bbox_free bbox) tt ] /\
    heap_after o = Stub.one_map.
Proof.
  apply (ZoomToMinMax_passes_the_box_on Stub.engine 180 90 (-180) (-90)
           Stub.one_map Stub.start 1 {| Map_m := 1000 |}).
  reflexivity.
Defined.

Lemma RenderToMemoryPng_releases_image_and_blob_witness :
  let prog := Map_RenderToMemoryPng (ref 1) Stub.defaults in
  exists (i : C.ptr) (rest : list event),
    let render := Ev (C.mapnik_map_render_to_image 1000 (Scale Stub.defaults)
                        (scaleFactor Stub.defaults)) i in
    calls_made Stub.engine prog Stub.one_map Stub.loaded = render :: rest /\
    (i = C.NULL ->
     exists (e : C.ptr) (o : outcome (bytes * error)),
       run Stub.engine prog Stub.one_map Stub.loaded = Some o /\
       engine_calls (calls o) = [render; Ev (C.mapnik_map_last_error 1000) e]) /\
    (forall o : outcome (bytes * error),
       run Stub.engine prog Stub.one_map Stub.loaded = Some o ->
       i <> C.NULL ->
       exists (b p : C.ptr) (n : Z) (bs : list byte),
         calls o = [ render;
                     Ev (C.mapnik_image_to_png_blob i) b;
                     Ev (C.blob_ptr b) p;
                     Ev (C.blob_len b) n;
                     Ev (C.GoBytes p (C.int n)) bs;
                     Ev (C.mapnik_image_blob_free b) tt;
                     Ev (C.mapnik_image_free i) tt ]).
Proof.
  apply (RenderToMemoryPng_releases_image_and_blob Stub.engine Stub.defaults
           Stub.one_map Stub.loaded 1 {| Map_m := 1000 |}).
  reflexivity.
Defined.

Lemma dimensions_reach_the_engine_unchanged_witness :
  (exists (o : outcome pointer) (h : C.ptr),
     run Stub.engine (NewMap 256 512) ∅ Stub.start = Some o /\
     calls o = [Ev (C.mapnik_map 256 512) h]) /\
  (Stub.one_map !! 1%positive = Some (MapObj {| Map_m := 1000 |}) /\
   exists o : outcome unit,
     run Stub.engine (Map_Resize (ref 1) 256 512) Stub.one_map Stub.start = Some o /\
     calls o = [Ev (C.mapnik_map_resize 1000 256 512) tt] /\
     heap_after o = Stub.one_map).
Proof.
  split; [| split; [reflexivity |]].
  - apply (proj1 (dimensions_reach_the_engine_unchanged Stub.engine 256 512
                    ∅ Stub.start 1 {| Map_m := 1000 |} ltac:(lia) ltac:(lia))).
  - apply (proj2 (dimensions_reach_the_engine_unchanged Stub.engine 256 512
                    Stub.one_map Stub.start 1 {| Map_m := 1000 |} ltac:(lia) ltac:(lia))).
    reflexivity.
Defined.

Lemma SetBufferSize_truncates_to_32_bits_witness :
  exists (o : outcome unit) (size : Z),
    run Stub.engine (Map_SetBufferSize (ref 1) (2 ^ 32 + 128)) Stub.one_map Stub.start = Some o /\
    calls o = [Ev (C.mapnik_map_set_buffer_size 1000 size) tt] /\
    - 2 ^ 31 <= size < 2 ^ 31 /\
    (- 2 ^ 31 <= 2 ^ 32 + 128 < 2 ^ 31 -> size = 2 ^ 32 + 128) /\
    run Stub.engine (Map_SetBufferSize (ref 1) (2 ^ 32 + 128 + 2 ^ 32)) Stub.one_map Stub.start =
    run Stub.engine (Map_SetBufferSize (ref 1) (2 ^ 32 + 128)) Stub.one_map Stub.start.
Proof.
  apply (SetBufferSize_truncates_to_32_bits Stub.engine (2 ^ 32 + 128)
           Stub.one_map Stub.start 1 {| Map_m := 1000 |}).
  reflexivity.
Defined.

Lemma Projection_Free_does_not_reach_copies_witness :
  let coord := {| X := 13; Y := 52 |} in
  let c := {| C.x := X coord; C.y := Y coord |} in
  (exists (o : outcome Coord) (c' : C.mapnik_coord_t),
     run Stub.engine (Projection_Free (ref 2);;
                      Projection_Forward {| Projection_p := 4000 |} coord)
       Stub.map_and_projection Stub.start = Some o /\
     calls o = [ Ev (C.mapnik_projection_free 4000) tt;
                 Ev (C.mapnik_projection_forward 4000 c) c' ]) /\
  (exists (o : outcome Coord) (c' : C.mapnik_coord_t),
     run Stub.engine (Projection_Free (ref 2);;
                      p ← deref_Projection (ref 2);
                      Projection_Forward p coord)
       Stub.map_and_projection Stub.start = Some o /\
     calls o = [ Ev (C.mapnik_projection_free 4000) tt;
                 Ev (C.mapnik_projection_forward C.NULL c) c' ]).
Proof.
  apply (Projection_Free_does_not_reach_copies Stub.engine {| X := 13; Y := 52 |}
           Stub.map_and_projection Stub.start 2 {| Projection_p := 4000 |}).
  reflexivity.
Defined.

Lemma Projection_outlives_its_Map_witness :
  exists (o : outcome Coord) (h : C.ptr) (c' : C.mapnik_coord_t),
    run Stub.engine (p ← Map_Projection (ref 1);
                     Map_Free (ref 1);;
                     Projection_Forward p {| X := 13; Y := 52 |})
      Stub.one_map Stub.start = Some o /\
    calls o = [ Ev (C.mapnik_map_projection 1000) h;
                Ev (C.mapnik_map_free 1000) tt;
                Ev (C.mapnik_projection_forward h {| C.x := 13; C.y := 52 |}) c' ] /\
    result o = {| X := C.x c'; Y := C.y c' |}.
Proof.
  apply (Projection_outlives_its_Map Stub.engine {| X := 13; Y := 52 |}
           Stub.one_map Stub.start 1 {| Map_m := 1000 |}).
  reflexivity.
Defined.

Lemma strings_cross_the_boundary_unchanged_witness :
  (exists (o : outcome string) (p : C.ptr) (text : string),
     run Stub.engine Version ∅ Stub.start = Some o /\
     calls o = [Ev C.mapnik_version_string p; Ev (C.GoString p) text] /\
     result o = String.append "Mapnik " text /\
     String.length (result o) = (7 + String.length text)%nat) /\
  (Stub.one_map !! 1%positive = Some (MapObj {| Map_m := 1000 |}) /\
   (exists (o : outcome string) (p : C.ptr) (text : string),
      run Stub.engine (Map_SRS (ref 1)) Stub.one_map Stub.start = Some o /\
      calls o = [Ev (C.mapnik_map_get_srs 1000) p; Ev (C.GoString p) text] /\
      result o = text) /\
   (exists (o : outcome unit) (cs : C.ptr),
      run Stub.engine (Map_SetSRS (ref 1) "not an srs") Stub.one_map Stub.start = Some o /\
      calls o = [ Ev (C.CString "not an srs") cs;
                  Ev (C.mapnik_map_set_srs 1000 cs) tt;
                  Ev (C.free cs) tt ] /\
      observed (Some o) = Some (tt, Stub.one_map))).
Proof.
  split; [| split; [reflexivity |]].
  - apply (proj1 (strings_cross_the_boundary_unchanged Stub.engine "not an srs"
                    ∅ Stub.start 1 {| Map_m := 1000 |})).
  - apply (proj2 (strings_cross_the_boundary_unchanged Stub.engine "not an srs"
                    Stub.one_map Stub.start 1 {| Map_m := 1000 |})).
    reflexivity.
Defined.

Lemma stylesheets_reach_their_entry_point_witness :
  (exists (o : outcome error) (cs : C.ptr) (rc : Z) (middle : list event),
     run Stub.engine (Map_Load (ref 1) "missing.xml") Stub.one_map Stub.start = Some o /\
     calls o = (Ev (C.CString "missing.xml") cs :: Ev (C.mapnik_map_load 1000 cs) rc
                :: middle ++ [Ev (C.free cs) tt])%list /\
     statuses middle = []) /\
  (exists (o : outcome error) (cs : C.ptr) (rc : Z) (middle : list event),
     run Stub.engine (Map_LoadString (ref 1) "missing.xml") Stub.one_map Stub.start = Some o /\
     calls o = (Ev (C.CString "missing.xml") cs :: Ev (C.mapnik_map_load_string 1000 cs) rc
                :: middle ++ [Ev (C.free cs) tt])%list /\
     statuses middle = []).
Proof.
  apply (stylesheets_reach_their_entry_point Stub.engine "missing.xml"
           Stub.one_map Stub.start 1 {| Map_m := 1000 |}).
  reflexivity.
Defined.

Lemma RenderToMemoryPng_panics_on_a_bad_blob_witness :
  let prog := Map_RenderToMemoryPng (ref 1) Stub.defaults in
  exists (i : C.ptr) (rest : list event),
    calls_made Stub.oversized prog Stub.one_map Stub.loaded =
      Ev (C.mapnik_map_render_to_image 1000 (Scale Stub.defaults)
            (scaleFactor Stub.defaults)) i :: rest /\
    (i <> C.NULL ->
     exists (b : C.ptr) (rest1 : list event),
       rest = Ev (C.mapnik_image_to_png_blob i) b :: rest1 /\
       (b = C.NULL -> run Stub.oversized prog Stub.one_map Stub.loaded = None) /\
       (b <> C.NULL ->
        exists (p : C.ptr) (n : Z) (rest2 : list event),
          rest1 = Ev (C.blob_ptr b) p :: Ev (C.blob_len b) n :: rest2 /\
          (C.int n < 0 -> run Stub.oversized prog Stub.one_map Stub.loaded = None) /\
          (2 ^ 31 <= n < 2 ^ 32 -> C.int n < 0))).
Proof.
  apply (RenderToMemoryPng_panics_on_a_bad_blob Stub.oversized Stub.defaults
           Stub.one_map Stub.loaded 1 {| Map_m := 1000 |}).
  reflexivity.
Defined.

